(** * A shallow embedding of [script.js], the tile-matching game

    The script is one page of browser JavaScript: a [config] constant, a
    mutable [state] object, a handful of functions that read and write
    [state] and the DOM, and two stubs standing where the path search
    should be.  Every function is embedded as a computation over an
    explicit [World] (the [state] object, the DOM, the console, pending
    timers, the array store and the source of random numbers), in a monad
    that also carries JavaScript's abrupt completion ([throw]).  A throw
    keeps the mutations made before it, as in JavaScript. *)

From Stdlib Require Import ZArith List String Lia.
From stdpp Require Import base tactics option list functions gmap strings.
Import ListNotations.

Local Open Scope Z_scope.
Local Open Scope nat_scope.
Local Open Scope string_scope.
Local Open Scope list_scope.

(** ** Values *)

(** A tile type is a string taken from [config.tileTypes]; reading past the
    end of an array gives [undefined], which the board then stores as a
    type like any other. *)
Inductive Value : Type :=
  | VUndefined
  | VStr (s : string).

#[global] Instance Value_eq_dec : EqDecision Value.
Proof. solve_decision. Defined.

(** [String(v)], as used when a value is stored in [dataset]. *)
Definition toString (v : Value) : string :=
  match v with
  | VUndefined => "undefined"
  | VStr s => s
  end.

(** ** Configuration *)

Record Config : Type := mkConfig {
  rows : nat;
  cols : nat;
  tileTypes : list string;
  gameTime : Z
}.

Definition config : Config := {|
  rows := 8;
  cols := 10;
  tileTypes := ["🍎"; "🍌"; "🍇"; "🍓"; "🍉"; "🍊"; "🍋"; "🍒"; "🍑"; "🍍"; "🥝"; "🥥"];
  gameTime := 60
|}.

(** ** The script's data *)

(** DOM elements and arrays are objects: they are shared by reference and
    compared by identity ([===]).  Both live in stores indexed by identity. *)
Definition elem : Type := nat.
Definition loc : Type := nat.

(** A tile's [div].  [dataset.row] and [dataset.col] hold the decimal text
    of a number, and the click handler reads them back with [parseInt]; the
    embedding keeps the number.  [dataset.type] holds [String(tileType)]. *)
Record Element : Type := mkElement {
  classList : gset string;
  dataset_row : nat;
  dataset_col : nat;
  dataset_type : string;
  textContent : Value;
  borderColor : string;
  boxShadow : string;
  clickListener : bool
}.

(** An entry of [state.board]:
    [{ element, type, row, col, visible }]. *)
Record Cell : Type := mkCell {
  cell_element : elem;
  cell_type : Value;
  cell_row : nat;
  cell_col : nat;
  cell_visible : bool
}.

#[global] Instance Cell_eq_dec : EqDecision Cell.
Proof. solve_decision. Defined.

(** A selection, [{ element, row, col, type }], built by the click handler
    from the clicked element. *)
Record Tile : Type := mkTile {
  tile_element : elem;
  tile_row : nat;
  tile_col : nat;
  tile_type : string
}.

(** The [state] object. *)
Record State : Type := mkState {
  board : list (list Cell);
  selectedTile : option Tile;
  score : Z;
  timeLeft : Z;
  timerId : option nat;
  tilesRemaining : Z
}.

(** The page: the tile elements, [#game-board], [#score], [#timer] and
    [#reset-button]. *)
Record Dom : Type := mkDom {
  elements : elem -> Element;
  nextElement : elem;
  boardChildren : list elem;
  gridTemplateColumns : nat;
  pointerEvents : string;
  scoreText : Z;
  timerText : Z;
  resetListener : bool
}.

Inductive ConsoleEntry : Type :=
  | ConsoleWarn (msg : string)
  | ConsoleError (msg : string).

Inductive Alert : Type :=
  | AlertWin (points : Z)
  | AlertLose (points : Z).

(** What the browser provides: the array store, [Math.random], the
    console, [alert], and the timers.  A pending [setTimeout] of
    [flashBorder] is kept as its identifier, the element and the border
    colour its closure captured. *)
Record Host : Type := mkHost {
  arrays : loc -> list Value;
  nextArray : loc;
  randomDraws : nat -> nat;
  randomCursor : nat;
  console : list ConsoleEntry;
  alerts : list Alert;
  intervals : gset nat;
  timeouts : list (nat * (elem * string));
  nextTimer : nat
}.

Record World : Type := mkWorld {
  state : State;
  dom : Dom;
  host : Host
}.

(** ** Computations *)

Inductive Error : Type :=
  | TypeError_null (property : string)
  | TypeError_undefined (property : string).

Inductive Completion (A : Type) : Type :=
  | Normal (a : A)
  | Throw (e : Error).
Arguments Normal {A} a.
Arguments Throw {A} e.

Definition JS (A : Type) : Type := World -> Completion A * World.

#[global] Instance JS_ret : MRet JS := fun A a w => (Normal a, w).

#[global] Instance JS_bind : MBind JS := fun A B k m w =>
  match m w with
  | (Normal a, w') => k a w'
  | (Throw e, w') => (Throw e, w')
  end.

Definition throw {A : Type} (e : Error) : JS A := fun w => (Throw e, w).

Definition gets {A : Type} (f : World -> A) : JS A := fun w => (Normal (f w), w).

Definition modify (f : World -> World) : JS unit := fun w => (Normal tt, f w).

Definition modify_state (f : State -> State) : JS unit :=
  modify (fun w => mkWorld (f (state w)) (dom w) (host w)).

Definition modify_dom (f : Dom -> Dom) : JS unit :=
  modify (fun w => mkWorld (state w) (f (dom w)) (host w)).

Definition modify_host (f : Host -> Host) : JS unit :=
  modify (fun w => mkWorld (state w) (dom w) (f (host w))).

(** The world a computation leaves, and its completion. *)
Definition exec {A : Type} (m : JS A) (w : World) : World := snd (m w).
Definition eval {A : Type} (m : JS A) (w : World) : Completion A := fst (m w).

(** [for (let i = start; i < start + count; i++)], with the loop's local
    variables threaded through as [s]. *)
Fixpoint for_up {S : Type} (count start : nat) (body : nat -> S -> JS S) (s : S) : JS S :=
  match count with
  | O => mret s
  | Datatypes.S count' => s' ← body start s; for_up count' (Datatypes.S start) body s'
  end.

(** [for (let i = start; i > 0; i--)]. *)
Fixpoint for_down (start : nat) (body : nat -> JS unit) : JS unit :=
  match start with
  | O => mret tt
  | Datatypes.S i' => body start;; for_down i' body
  end.

(** ** Field assignments *)

Definition set_board (b : list (list Cell)) (s : State) : State :=
  mkState b (selectedTile s) (score s) (timeLeft s) (timerId s) (tilesRemaining s).
Definition set_selectedTile (t : option Tile) (s : State) : State :=
  mkState (board s) t (score s) (timeLeft s) (timerId s) (tilesRemaining s).
Definition set_score (n : Z) (s : State) : State :=
  mkState (board s) (selectedTile s) n (timeLeft s) (timerId s) (tilesRemaining s).
Definition set_timeLeft (n : Z) (s : State) : State :=
  mkState (board s) (selectedTile s) (score s) n (timerId s) (tilesRemaining s).
Definition set_timerId (i : option nat) (s : State) : State :=
  mkState (board s) (selectedTile s) (score s) (timeLeft s) i (tilesRemaining s).
Definition set_tilesRemaining (n : Z) (s : State) : State :=
  mkState (board s) (selectedTile s) (score s) (timeLeft s) (timerId s) n.

Definition set_elements (f : elem -> Element) (d : Dom) : Dom :=
  mkDom f (nextElement d) (boardChildren d) (gridTemplateColumns d)
        (pointerEvents d) (scoreText d) (timerText d) (resetListener d).
Definition set_nextElement (n : elem) (d : Dom) : Dom :=
  mkDom (elements d) n (boardChildren d) (gridTemplateColumns d)
        (pointerEvents d) (scoreText d) (timerText d) (resetListener d).
Definition set_boardChildren (l : list elem) (d : Dom) : Dom :=
  mkDom (elements d) (nextElement d) l (gridTemplateColumns d)
        (pointerEvents d) (scoreText d) (timerText d) (resetListener d).
Definition set_gridTemplateColumns (n : nat) (d : Dom) : Dom :=
  mkDom (elements d) (nextElement d) (boardChildren d) n
        (pointerEvents d) (scoreText d) (timerText d) (resetListener d).
Definition set_pointerEvents (p : string) (d : Dom) : Dom :=
  mkDom (elements d) (nextElement d) (boardChildren d) (gridTemplateColumns d)
        p (scoreText d) (timerText d) (resetListener d).
Definition set_scoreText (n : Z) (d : Dom) : Dom :=
  mkDom (elements d) (nextElement d) (boardChildren d) (gridTemplateColumns d)
        (pointerEvents d) n (timerText d) (resetListener d).
Definition set_timerText (n : Z) (d : Dom) : Dom :=
  mkDom (elements d) (nextElement d) (boardChildren d) (gridTemplateColumns d)
        (pointerEvents d) (scoreText d) n (resetListener d).
Definition set_resetListener (b : bool) (d : Dom) : Dom :=
  mkDom (elements d) (nextElement d) (boardChildren d) (gridTemplateColumns d)
        (pointerEvents d) (scoreText d) (timerText d) b.

Definition set_arrays (f : loc -> list Value) (h : Host) : Host :=
  mkHost f (nextArray h) (randomDraws h) (randomCursor h) (console h)
         (alerts h) (intervals h) (timeouts h) (nextTimer h).
Definition set_nextArray (n : loc) (h : Host) : Host :=
  mkHost (arrays h) n (randomDraws h) (randomCursor h) (console h)
         (alerts h) (intervals h) (timeouts h) (nextTimer h).
Definition set_randomCursor (n : nat) (h : Host) : Host :=
  mkHost (arrays h) (nextArray h) (randomDraws h) n (console h)
         (alerts h) (intervals h) (timeouts h) (nextTimer h).
Definition set_console (l : list ConsoleEntry) (h : Host) : Host :=
  mkHost (arrays h) (nextArray h) (randomDraws h) (randomCursor h) l
         (alerts h) (intervals h) (timeouts h) (nextTimer h).
Definition set_alerts (l : list Alert) (h : Host) : Host :=
  mkHost (arrays h) (nextArray h) (randomDraws h) (randomCursor h) (console h)
         l (intervals h) (timeouts h) (nextTimer h).
Definition set_intervals (s : gset nat) (h : Host) : Host :=
  mkHost (arrays h) (nextArray h) (randomDraws h) (randomCursor h) (console h)
         (alerts h) s (timeouts h) (nextTimer h).
Definition set_timeouts (l : list (nat * (elem * string))) (h : Host) : Host :=
  mkHost (arrays h) (nextArray h) (randomDraws h) (randomCursor h) (console h)
         (alerts h) (intervals h) l (nextTimer h).
Definition set_nextTimer (n : nat) (h : Host) : Host :=
  mkHost (arrays h) (nextArray h) (randomDraws h) (randomCursor h) (console h)
         (alerts h) (intervals h) (timeouts h) n.

(** ** What the browser provides *)

(** *** Arrays *)

(** [[]]: a new, empty array. *)
Definition array_new : JS loc :=
  a ← gets (fun w => nextArray (host w));
  modify_host (fun h => set_nextArray (S a) (set_arrays (<[a := []]> (arrays h)) h));;
  mret a.

Definition array_length (a : loc) : JS nat :=
  gets (fun w => length (arrays (host w) a)).

(** [a[i]]: [undefined] past the end. *)
Definition array_get (a : loc) (i : nat) : JS Value :=
  gets (fun w => default VUndefined (arrays (host w) a !! i)).

(** [a[i] = v]: past the end the array grows, and the holes read as
    [undefined]. *)
Definition list_assign (i : nat) (v : Value) (l : list Value) : list Value :=
  if decide (i < length l) then <[i := v]> l
  else l ++ replicate (i - length l) VUndefined ++ [v].

Definition array_set (a : loc) (i : nat) (v : Value) : JS unit :=
  modify_host (fun h => set_arrays (<[a := list_assign i v (arrays h a)]> (arrays h)) h).

(** [a.push(v1, ..., vn)]. *)
Definition array_push (a : loc) (vs : list Value) : JS unit :=
  modify_host (fun h => set_arrays (<[a := arrays h a ++ vs]> (arrays h)) h).

(** *** Random numbers *)

(** [Math.floor(Math.random() * n)] for a whole [n >= 1].  [Math.random()]
    lies in [0, 1), so the result is one of [0 .. n-1], and each of them is
    possible; the world holds the sequence of draws, and a draw is reduced
    to that range. *)
Definition random_below (n : nat) : JS nat :=
  k ← gets (fun w => randomCursor (host w));
  d ← gets (fun w => randomDraws (host w) k);
  modify_host (set_randomCursor (S k));;
  mret (d mod n).

(** *** Console, dialogs and timers *)

Definition console_warn (msg : string) : JS unit :=
  modify_host (fun h => set_console (console h ++ [ConsoleWarn msg]) h).

Definition console_error (msg : string) : JS unit :=
  modify_host (fun h => set_console (console h ++ [ConsoleError msg]) h).

Definition alert (a : Alert) : JS unit :=
  modify_host (fun h => set_alerts (alerts h ++ [a]) h).

(** [setInterval(updateTimer, 1000)]: the only interval the script sets. *)
Definition setInterval : JS nat :=
  i ← gets (fun w => nextTimer (host w));
  modify_host (fun h => set_nextTimer (S i) (set_intervals ({[i]} ∪ intervals h) h));;
  mret i.

(** [clearInterval(id)]; [null] clears nothing. *)
Definition clearInterval (id : option nat) : JS unit :=
  match id with
  | None => mret tt
  | Some i => modify_host (fun h => set_intervals (intervals h ∖ {[i]}) h)
  end.

(** [setTimeout(callback, 300)] for [flashBorder]'s closure over [element]
    and [originalBorder]. *)
Definition setTimeout (element : elem) (originalBorder : string) : JS unit :=
  i ← gets (fun w => nextTimer (host w));
  modify_host (fun h =>
    set_nextTimer (S i) (set_timeouts (timeouts h ++ [(i, (element, originalBorder))]) h)).

(** *** Elements *)

Definition get_element (e : elem) : JS Element :=
  gets (fun w => elements (dom w) e).

Definition modify_element (e : elem) (f : Element -> Element) : JS unit :=
  modify_dom (fun d => set_elements (<[e := f (elements d e)]> (elements d)) d).

Definition set_classList (c : gset string) (x : Element) : Element :=
  mkElement c (dataset_row x) (dataset_col x) (dataset_type x) (textContent x)
            (borderColor x) (boxShadow x) (clickListener x).
Definition set_borderColor (c : string) (x : Element) : Element :=
  mkElement (classList x) (dataset_row x) (dataset_col x) (dataset_type x)
            (textContent x) c (boxShadow x) (clickListener x).
Definition set_boxShadow (c : string) (x : Element) : Element :=
  mkElement (classList x) (dataset_row x) (dataset_col x) (dataset_type x)
            (textContent x) (borderColor x) c (clickListener x).

Definition classList_contains (e : elem) (c : string) : JS bool :=
  x ← get_element e; mret (bool_decide (c ∈ classList x)).

Definition classList_add (e : elem) (c : string) : JS unit :=
  modify_element e (fun x => set_classList ({[c]} ∪ classList x) x).

Definition classList_remove (e : elem) (c : string) : JS unit :=
  modify_element e (fun x => set_classList (classList x ∖ {[c]}) x).

(** ** The script's functions *)

Section Script.

(** The [config] object is a constant of the script; the functions are
    embedded for any configuration. *)
Variable cfg : Config.

(** [shuffleArray(array)]: Fisher-Yates, in place.  The destructuring swap
    reads [array[j]] and [array[i]] and then assigns [array[i]] and
    [array[j]], in that order. *)
Definition shuffleArray (array : loc) : JS loc :=
  len ← array_length array;
  for_down (len - 1) (fun i =>
    j ← random_below (i + 1);
    a_j ← array_get array j;
    a_i ← array_get array i;
    array_set array i a_j;;
    array_set array j a_i);;
  mret array.

(** [config.tileTypes[i % config.tileTypes.length]]: with no tile types the
    index is [NaN] and the element [undefined]. *)
Definition tileType_at (i : nat) : Value :=
  match length (tileTypes cfg) with
  | O => VUndefined
  | S _ => default VUndefined (VStr <$> tileTypes cfg !! (i mod length (tileTypes cfg)))
  end.

Definition generateTiles : JS loc :=
  let totalTiles := rows cfg * cols cfg in
  if decide (totalTiles mod 2 ≠ 0) then
    console_error "棋盘格子总数必须是偶数!";;
    array_new
  else
    let neededPairs := totalTiles / 2 in
    tilePool ← array_new;
    for_up neededPairs 0 (fun i _ =>
      let type := tileType_at i in
      array_push tilePool [type; type]) tt;;
    shuffleArray tilePool.

(** [document.createElement('div')] followed by the assignments
    [createBoard] makes to the new element before it is used. *)
Definition createTileElement (r c : nat) (tileType : Value) : JS elem :=
  e ← gets (fun w => nextElement (dom w));
  modify_dom (fun d =>
    set_nextElement (S e)
      (set_elements (<[e := {| classList := {["tile"]};
                               dataset_row := r;
                               dataset_col := c;
                               dataset_type := toString tileType;
                               textContent := tileType;
                               borderColor := "";
                               boxShadow := "";
                               clickListener := true |}]> (elements d)) d));;
  mret e.

Definition appendChild (e : elem) : JS unit :=
  modify_dom (fun d => set_boardChildren (boardChildren d ++ [e]) d).

Definition createBoard : JS unit :=
  tiles ← generateTiles;
  modify_state (set_board []);;
  modify_dom (set_boardChildren []);;
  modify_dom (set_gridTemplateColumns (cols cfg));;
  for_up (rows cfg) 0 (fun r tileIndex =>
    '(row, tileIndex) ← for_up (cols cfg) 0 (fun c '(row, tileIndex) =>
      tileType ← array_get tiles tileIndex;
      tileElement ← createTileElement r c tileType;
      appendChild tileElement;;
      mret (row ++ [mkCell tileElement tileType r c true], S tileIndex))
      ([], tileIndex);
    modify_state (fun s => set_board (board s ++ [row]) s);;
    mret tileIndex) 0;;
  modify_state (set_tilesRemaining (Z.of_nat (rows cfg * cols cfg))).

(** [isMatchPossible(tile1, tile2)]: the stand-in the click handler calls. *)
Definition isMatchPossible (tile1 tile2 : Tile) : JS bool :=
  console_warn "使用的是简化的匹配逻辑，需要实现完整的路径检查！";;
  mret true.

(** [isPathValid(tile1, tile2)]: the path check, not yet written. *)
Definition isPathValid (tile1 tile2 : Tile) : JS bool :=
  console_error "isPathValid 函数尚未实现！";;
  mret false.

(** [flashBorder(element, color)].  Its argument is an element wherever the
    script calls it, so the guard [if (!element) return] never fires. *)
Definition flashBorder (element : elem) (color : string) : JS unit :=
  x ← get_element element;
  let originalBorder := borderColor x in
  modify_element element (set_borderColor color);;
  modify_element element (set_boxShadow ("0 0 5px " +:+ color));;
  setTimeout element originalBorder.

(** The closure [flashBorder] hands to [setTimeout]. *)
Definition flashBorder_restore (element : elem) (originalBorder : string) : JS unit :=
  modify_element element (set_borderColor originalBorder);;
  modify_element element (set_boxShadow "none").

Definition updateScore : JS unit :=
  s ← gets (fun w => score (state w));
  modify_dom (set_scoreText s).

Definition stopGameTimer : JS unit :=
  id ← gets (fun w => timerId (state w));
  clearInterval id.

Definition winGame : JS unit :=
  stopGameTimer;;
  s ← gets (fun w => score (state w));
  alert (AlertWin s).

Definition loseGame : JS unit :=
  stopGameTimer;;
  s ← gets (fun w => score (state w));
  alert (AlertLose s);;
  modify_dom (set_pointerEvents "none").

Definition updateTimer : JS unit :=
  modify_state (fun s => set_timeLeft (timeLeft s - 1)%Z s);;
  t ← gets (fun w => timeLeft (state w));
  modify_dom (set_timerText t);;
  if (t <=? 0)%Z then loseGame else mret tt.

Definition startGameTimer : JS unit :=
  id ← gets (fun w => timerId (state w));
  clearInterval id;;
  modify_state (set_timeLeft (gameTime cfg));;
  t ← gets (fun w => timeLeft (state w));
  modify_dom (set_timerText t);;
  i ← setInterval;
  modify_state (set_timerId (Some i)).

(** [state.selectedTile.p]: a [TypeError] when [state.selectedTile] is
    [null]. *)
Definition selectedTile_get {A : Type} (property : string) (p : Tile -> A) : JS A :=
  t ← gets (fun w => selectedTile (state w));
  match t with
  | None => throw (TypeError_null property)
  | Some t => mret (p t)
  end.

(** [state.board[r][c].visible = false]: a [TypeError] when the row or the
    cell is [undefined]. *)
Definition set_cell_visible (v : bool) (x : Cell) : Cell :=
  mkCell (cell_element x) (cell_type x) (cell_row x) (cell_col x) v.

Definition board_hide (r c : nat) : JS unit :=
  b ← gets (fun w => board (state w));
  match b !! r with
  | None => throw (TypeError_undefined "[col]")
  | Some cells =>
      match cells !! c with
      | None => throw (TypeError_undefined "visible")
      | Some x =>
          modify_state (fun s =>
            set_board (<[r := <[c := set_cell_visible false x]> cells]> (board s)) s)
      end
  end.

(** [handleTileClick(event)], with [event.target] the clicked element, and
    with the function it asks whether the two tiles may be removed as a
    parameter [gate]: the script calls [isMatchPossible].  Every
    [state.selectedTile.p] of the source is a [selectedTile_get]; the first
    argument of [gate] is [state.selectedTile] itself, the object found
    non-null two tests above and not assigned since. *)
Definition handleTileClick_with (gate : Tile -> Tile -> JS bool)
    (clickedElement : elem) : JS unit :=
  hidden ← classList_contains clickedElement "hidden";
  selected ← classList_contains clickedElement "selected";
  if hidden || selected then mret tt
  else
    x ← get_element clickedElement;
    let row := dataset_row x in
    let col := dataset_col x in
    let type := dataset_type x in
    let currentTile := mkTile clickedElement row col type in
    sel ← gets (fun w => selectedTile (state w));
    match sel with
    | None =>
        classList_add clickedElement "selected";;
        modify_state (set_selectedTile (Some currentTile))
    | Some tile1 =>
        e ← selectedTile_get "element" tile_element;
        if decide (e = clickedElement) then
          classList_remove clickedElement "selected";;
          modify_state (set_selectedTile None)
        else
          t ← selectedTile_get "type" tile_type;
          if decide (t = type) then
            possible ← gate tile1 currentTile;
            if (possible : bool) then
              e ← selectedTile_get "element" tile_element;
              classList_add e "hidden";;
              classList_add clickedElement "hidden";;
              r1 ← selectedTile_get "row" tile_row;
              c1 ← selectedTile_get "col" tile_col;
              board_hide r1 c1;;
              board_hide row col;;
              modify_state (fun s => set_score (score s + 10)%Z s);;
              modify_state (fun s => set_tilesRemaining (tilesRemaining s - 2)%Z s);;
              updateScore;;
              e ← selectedTile_get "element" tile_element;
              classList_remove e "selected";;
              modify_state (set_selectedTile None);;
              n ← gets (fun w => tilesRemaining (state w));
              if (n =? 0)%Z then winGame else mret tt
            else
              e ← selectedTile_get "element" tile_element;
              classList_remove e "selected";;
              modify_state (set_selectedTile None);;
              flashBorder clickedElement "red";;
              e ← selectedTile_get "element" tile_element;
              flashBorder e "red"
          else
            e ← selectedTile_get "element" tile_element;
            classList_remove e "selected";;
            classList_add clickedElement "selected";;
            modify_state (set_selectedTile (Some currentTile));;
            flashBorder clickedElement "orange";;
            e ← selectedTile_get "element" tile_element;
            flashBorder e "orange"
    end.

Definition handleTileClick : elem -> JS unit :=
  handleTileClick_with isMatchPossible.

Definition resetGame : JS unit :=
  stopGameTimer;;
  modify_state (set_score 0%Z);;
  modify_state (set_selectedTile None);;
  updateScore;;
  modify_dom (set_pointerEvents "auto");;
  createBoard;;
  startGameTimer.

Definition initializeGame : JS unit :=
  modify_dom (set_resetListener true);;
  resetGame.

(** ** The page as a transition system *)

(** What can happen after the script has loaded: a click on a tile's
    element, a click on the reset button, the interval calling
    [updateTimer], and a pending [flashBorder] timeout. *)
Inductive Event : Type :=
  | ClickTile (e : elem)
  | ClickReset
  | IntervalFires (id : nat)
  | TimeoutFires (id : nat).

#[global] Instance Event_eq_dec : EqDecision Event.
Proof. solve_decision. Defined.

Definition take_timeout (id : nat) : JS (option (elem * string)) :=
  ts ← gets (fun w => timeouts (host w));
  modify_host (set_timeouts (filter (fun p => p.1 ≠ id) ts));;
  mret ((fun p => p.2.2) <$> list_find (fun p => p.1 = id) ts).

(** The browser runs the listener registered for the event, if any.
    [pointer-events: none] on the board keeps the browser from producing
    clicks on tiles; it does not change what a click does when one is
    dispatched, so it plays no part here. *)
Definition dispatch (ev : Event) : JS unit :=
  match ev with
  | ClickTile e =>
      x ← get_element e;
      if clickListener x then handleTileClick e else mret tt
  | ClickReset =>
      l ← gets (fun w => resetListener (dom w));
      if (l : bool) then resetGame else mret tt
  | IntervalFires id =>
      active ← gets (fun w => bool_decide (id ∈ intervals (host w)));
      if (active : bool) then updateTimer else mret tt
  | TimeoutFires id =>
      t ← take_timeout id;
      match t with
      | Some (element, originalBorder) => flashBorder_restore element originalBorder
      | None => mret tt
      end
  end.

(** An exception that no handler catches is reported by the browser and
    the page goes on, with the mutations made before it. *)
Definition run (evs : list Event) (w : World) : World :=
  foldl (fun w ev => exec (dispatch ev) w) w evs.

(** An element the script has not created. *)
Definition blank_element : Element :=
  {| classList := ∅; dataset_row := 0; dataset_col := 0; dataset_type := "";
     textContent := VUndefined; borderColor := ""; boxShadow := "";
     clickListener := false |}.

(** The world when the script starts: the [state] literal, an empty page,
    and the given random draws. *)
Definition initial_world (draws : nat -> nat) : World :=
  {| state := {| board := []; selectedTile := None; score := 0%Z;
                 timeLeft := gameTime cfg; timerId := None;
                 tilesRemaining := 0%Z |};
     dom := {| elements := fun _ => blank_element; nextElement := 0;
               boardChildren := []; gridTemplateColumns := 0;
               pointerEvents := "auto"; scoreText := 0%Z; timerText := 0%Z;
               resetListener := false |};
     host := {| arrays := fun _ => []; nextArray := 0;
                randomDraws := draws; randomCursor := 0;
                console := []; alerts := [];
                intervals := ∅; timeouts := []; nextTimer := 1 |} |}.

(** The script's top level ends with [initializeGame()]. *)
Definition page_load (draws : nat -> nat) : World :=
  exec initializeGame (initial_world draws).

End Script.

(** ** The contract the specification gives the path search

    The script has no path search to embed.  The definitions of this module
    follow the words of the specification: its preconditions, its notion of
    an empty cell on the board padded by one cell on every side, and its
    three passes.  They are what the two stubs are compared with. *)

Module PathSpec.

Definition Coordinate : Type := (Z * Z)%type.

Definition coordinate (t : Tile) : Coordinate :=
  (Z.of_nat (tile_row t), Z.of_nat (tile_col t)).

Definition cell_at (b : list (list Cell)) (p : Coordinate) : option Cell :=
  if decide (0 ≤ p.1 ∧ 0 ≤ p.2)%Z
  then b !! Z.to_nat p.1 ≫= fun cells => cells !! Z.to_nat p.2
  else None.

(** Board dimensions. *)
Definition height (b : list (list Cell)) : Z := Z.of_nat (length b).
Definition width (b : list (list Cell)) : Z := Z.of_nat (length (default [] (head b))).

(** [isOccupied(row, col)]: a tile exists there and is visible. *)
Definition isOccupied (b : list (list Cell)) (p : Coordinate) : bool :=
  match cell_at b p with
  | Some x => cell_visible x
  | None => false
  end.

Definition in_range (b : list (list Cell)) (p : Coordinate) : bool :=
  bool_decide (is_Some (cell_at b p)).

Definition same_type (b : list (list Cell)) (p q : Coordinate) : bool :=
  match cell_at b p, cell_at b q with
  | Some x, Some y => bool_decide (cell_type x = cell_type y)
  | _, _ => false
  end.

(** The preconditions of [findPath(board, a, b)]. *)
Definition precondition (b : list (list Cell)) (p q : Coordinate) : bool :=
  bool_decide (p ≠ q) && in_range b p && in_range b q
  && isOccupied b p && isOccupied b q && same_type b p q.

(** Malformed input: an endpoint out of range, mismatched types, identical
    endpoints, or an endpoint that is not visible. *)
Definition malformed (b : list (list Cell)) (p q : Coordinate) : bool :=
  negb (in_range b p && in_range b q)
  || negb (same_type b p q)
  || bool_decide (p = q)
  || negb (isOccupied b p && isOccupied b q).

(** The whole numbers strictly between two. *)
Definition strictly_between (x y : Z) : list Z :=
  (fun k => (Z.min x y + 1 + Z.of_nat k)%Z) <$> seq 0 (Z.to_nat (Z.max x y - Z.min x y - 1)).

(** The two points share a row or a column and every cell strictly between
    them is empty: not visible, or in the padding. *)
Definition clear_line (b : list (list Cell)) (p q : Coordinate) : bool :=
  if decide (p.1 = q.1)
  then forallb (fun c => negb (isOccupied b (p.1, c))) (strictly_between p.2 q.2)
  else if decide (p.2 = q.2)
  then forallb (fun r => negb (isOccupied b (r, p.2))) (strictly_between p.1 q.1)
  else false.

Definition zero_turn : list (list Cell) -> Coordinate -> Coordinate -> bool := clear_line.

(** A corner at [(p.row, q.col)] or [(q.row, p.col)], in that order, with
    both segments clear and the corner itself empty or one of the two
    endpoints. *)
Definition corner_ok (b : list (list Cell)) (p q k : Coordinate) : bool :=
  clear_line b p k && clear_line b k q
  && (negb (isOccupied b k) || bool_decide (k = p) || bool_decide (k = q)).

Definition one_turn (b : list (list Cell)) (p q : Coordinate) : bool :=
  corner_ok b p q (p.1, q.2) || corner_ok b p q (q.1, p.2).

(** The points of the board with its one-cell padding. *)
Definition extended_grid (b : list (list Cell)) : list Coordinate :=
  r ← (fun k => (Z.of_nat k - 1)%Z) <$> seq 0 (Z.to_nat (height b + 2));
  c ← (fun k => (Z.of_nat k - 1)%Z) <$> seq 0 (Z.to_nat (width b + 2));
  [(r, c)].

(** An empty point reached by one turn from one endpoint and by a straight
    clear line from the other. *)
Definition two_turn (b : list (list Cell)) (p q : Coordinate) : bool :=
  existsb (fun k =>
    negb (isOccupied b k)
    && ((one_turn b p k && zero_turn b k q) || (zero_turn b p k && one_turn b k q)))
    (extended_grid b).

(** Some route with at most two turns is free. *)
Definition connectable (b : list (list Cell)) (p q : Coordinate) : bool :=
  zero_turn b p q || one_turn b p q || two_turn b p q.

End PathSpec.

(** ** Definitions used to state the properties *)

(** The body of [shuffleArray]'s loop. *)
Definition shuffle_body (array : loc) (i : nat) : JS unit :=
  j ← random_below (i + 1);
  a_j ← array_get array j;
  a_i ← array_get array i;
  array_set array i a_j;;
  array_set array j a_i.

(** What a world keeps when only the array [array] is rearranged. *)
Definition rearranged (array : loc) (w w' : World) : Prop :=
  arrays (host w') array ≡ₚ arrays (host w) array
  ∧ (∀ l, l ≠ array → arrays (host w') l = arrays (host w) l)
  ∧ nextArray (host w') = nextArray (host w)
  ∧ state w' = state w
  ∧ dom w' = dom w.

(** The body of [generateTiles]'s loop, and the pool after pairs
    [start .. start + n - 1] have been pushed. *)
Definition push_pair (cfg : Config) (tilePool : loc) (i : nat) (_ : unit) : JS unit :=
  let type := tileType_at cfg i in
  array_push tilePool [type; type].

Definition pairs_from (cfg : Config) (start n : nat) : list Value :=
  flat_map (fun i => [tileType_at cfg i; tileType_at cfg i]) (seq start n).

(** [board[r][c]], when there is such a cell. *)
Definition board_cell (b : list (list Cell)) (r c : nat) : option Cell :=
  b !! r ≫= fun cells => cells !! c.

(** The board after [board[r][c].visible = false]. *)
Definition hidden_at (r c : nat) (b : list (list Cell)) : list (list Cell) :=
  match b !! r with
  | Some cells =>
      match cells !! c with
      | Some x => <[r := <[c := set_cell_visible false x]> cells]> b
      | None => b
      end
  | None => b
  end.

(** A cell is as it was, or it was visible and now is not. *)
Definition cell_evolves (x x' : Cell) : Prop :=
  x' = x ∨ (cell_visible x = true ∧ x' = set_cell_visible false x).

(** The same grid, cell for cell, up to eliminations. *)
Definition board_evolves (b b' : list (list Cell)) : Prop :=
  Forall2 (Forall2 cell_evolves) b b'.

(** The bodies of [createBoard]'s two loops. *)
Definition createBoard_cell (tiles : loc) (r c : nat) (acc : list Cell * nat)
    : JS (list Cell * nat) :=
  let '(row, tileIndex) := acc in
  tileType ← array_get tiles tileIndex;
  tileElement ← createTileElement r c tileType;
  appendChild tileElement;;
  mret (row ++ [mkCell tileElement tileType r c true], S tileIndex).

Definition createBoard_row (cfg : Config) (tiles : loc) (r tileIndex : nat) : JS nat :=
  '(row, tileIndex) ← for_up (cols cfg) 0 (createBoard_cell tiles r) ([], tileIndex);
  modify_state (fun s => set_board (board s ++ [row]) s);;
  mret tileIndex.

(** Every cell of row [r] knows its own position. *)
Definition row_shape (r : nat) (cells : list Cell) : Prop :=
  ∀ c x, cells !! c = Some x → cell_row x = r ∧ cell_col x = c.

Definition rows_shape (cfg : Config) (b : list (list Cell)) : Prop :=
  ∀ r cells, b !! r = Some cells → length cells = cols cfg ∧ row_shape r cells.


(** A grid of [rows] by [cols] cells, each knowing its own position. *)
Definition board_shape (cfg : Config) (b : list (list Cell)) : Prop :=
  length b = rows cfg ∧ rows_shape cfg b.

(** A computation that changes the board by eliminations only. *)
Definition eliminates_only {A : Type} (m : JS A) : Prop :=
  ∀ w, board_evolves (board (state w)) (board (state (exec m w))).

(** ** A concrete session

    With the shipped [config] the pool has 80 entries and the shuffle draws
    for [i = 79, 78, ..., 1].  The draws below pick [j = i] every time, so
    the pool stays as it was built: the first row of the board starts with
    two apples. *)
Definition identity_draws (k : nat) : nat := 79 - k.

Definition loaded_world : World := page_load config identity_draws.

(** The tile at [(0, 0)] has been clicked and is selected. *)
Definition one_selected_world : World := run config [ClickTile 0] loaded_world.

(** The first two tiles have been clicked and are gone. *)
Definition one_pair_gone_world : World :=
  run config [ClickTile 0; ClickTile 1] loaded_world.

(** The tile the click handler builds for the element at [(r, c)] of the
    loaded board, whose type is [t]. *)
Definition tile_of (r c : nat) (t : string) : Tile := mkTile (r * 10 + c) r c t.

(** A board of two rows and two columns, for small examples. *)
Definition small_config : Config := mkConfig 2 2 ["a"; "b"] 60.

(** * Properties *)

(** ** Reasoning about computations *)

Lemma exec_bind {A B : Type} (m : JS A) (k : A -> JS B) (w : World) :
  exec (m ≫= k) w =
  match eval m w with
  | Normal a => exec (k a) (exec m w)
  | Throw _ => exec m w
  end.
Proof. unfold exec, eval, mbind, JS_bind. by destruct (m w) as [[a|e] w']. Qed.

Lemma eval_bind {A B : Type} (m : JS A) (k : A -> JS B) (w : World) :
  eval (m ≫= k) w =
  match eval m w with
  | Normal a => eval (k a) (exec m w)
  | Throw e => Throw e
  end.
Proof. unfold exec, eval, mbind, JS_bind. by destruct (m w) as [[a|e] w']. Qed.

Lemma run_pair {A : Type} (m : JS A) (w : World) : m w = (eval m w, exec m w).
Proof. unfold eval, exec. by destruct (m w). Qed.

Lemma bind_run {A B : Type} (m : JS A) (k : A → JS B) (w w1 : World) (a : A) :
  m w = (Normal a, w1) → (m ≫= k) w = k a w1.
Proof. intros H. unfold mbind, JS_bind. by rewrite H. Qed.

(** Unfolds the monad and the primitives down to functions on worlds. *)
Ltac js_unfold :=
  unfold exec, eval, mbind, mret, JS_bind, JS_ret, throw, gets,
    modify_state, modify_dom, modify_host, modify in *.

(** ** The two stubs *)

(** C2.  [isMatchPossible] answers [true] and [isPathValid] answers
    [false], for every pair of tiles and in every world: whatever the board
    holds and wherever the tiles are. *)
Theorem stubs_are_opposite_constants (w : World) (tile1 tile2 : Tile) :
  eval (isMatchPossible tile1 tile2) w = Normal true
  ∧ eval (isPathValid tile1 tile2) w = Normal false.
Proof. split; reflexivity. Qed.

(** C6.  [isPathValid] (and [isMatchPossible] with it) leaves the [state]
    object, and so every cell of the board, and the page as they were; it
    only writes a line to the console.  Its answer does not depend on the
    world, so a second call in the world the first one left, or a call in any
    other world, gives the same answer. *)
Theorem path_check_has_no_effect_on_board (w w2 : World) (tile1 tile2 : Tile) :
  (state (exec (isPathValid tile1 tile2) w) = state w
   ∧ board (state (exec (isPathValid tile1 tile2) w)) = board (state w)
   ∧ dom (exec (isPathValid tile1 tile2) w) = dom w
   ∧ eval (isPathValid tile1 tile2) (exec (isPathValid tile1 tile2) w)
     = eval (isPathValid tile1 tile2) w
   ∧ eval (isPathValid tile1 tile2) w2 = eval (isPathValid tile1 tile2) w)
  ∧ (state (exec (isMatchPossible tile1 tile2) w) = state w
     ∧ board (state (exec (isMatchPossible tile1 tile2) w)) = board (state w)
     ∧ dom (exec (isMatchPossible tile1 tile2) w) = dom w
     ∧ eval (isMatchPossible tile1 tile2) (exec (isMatchPossible tile1 tile2) w)
       = eval (isMatchPossible tile1 tile2) w
     ∧ eval (isMatchPossible tile1 tile2) w2 = eval (isMatchPossible tile1 tile2) w).
Proof. repeat split. Qed.

(** ** [shuffleArray] *)

Section Shuffle.

Variable array : loc.

#[local] Abbreviation shuffle_body := (shuffle_body array).
#[local] Abbreviation rearranged := (rearranged array).

Lemma rearranged_refl w : rearranged w w.
Proof. by repeat split. Qed.

Lemma rearranged_trans w1 w2 w3 :
  rearranged w1 w2 → rearranged w2 w3 → rearranged w1 w3.
Proof.
  intros (P1 & O1 & N1 & S1 & D1) (P2 & O2 & N2 & S2 & D2).
  repeat split; try congruence.
  - by rewrite P2.
  - intros l Hl. rewrite O2, O1; done.
Qed.

Lemma list_assign_lt (i : nat) (v : Value) (l : list Value) :
  i < length l → list_assign i v l = <[i := v]> l.
Proof. intros H. unfold list_assign. by rewrite decide_True. Qed.

Lemma shuffle_body_spec (i : nat) (w : World) :
  i < length (arrays (host w) array) →
  eval (shuffle_body i) w = Normal tt ∧ rearranged w (exec (shuffle_body i) w).
Proof.
  intros Hi.
  set (l := arrays (host w) array) in *.
  set (j := randomDraws (host w) (randomCursor (host w)) mod (i + 1)).
  assert (Hj : j < length l).
  { pose proof (Nat.mod_upper_bound (randomDraws (host w) (randomCursor (host w))) (i + 1)).
    unfold j. lia. }
  destruct (lookup_lt_is_Some_2 l i Hi) as [xi Hxi].
  destruct (lookup_lt_is_Some_2 l j Hj) as [xj Hxj].
  split; [reflexivity|].
  unfold rearranged, shuffle_body, random_below, array_get, array_set.
  js_unfold; cbn.
  fold l. fold j. rewrite Hxi, Hxj; cbn.
  rewrite !fn_lookup_insert.
  rewrite (list_assign_lt i) by done.
  rewrite (list_assign_lt j) by (by rewrite length_insert).
  repeat split.
  - by apply Permutation_insert_swap.
  - intros k Hk. by rewrite !fn_lookup_insert_ne.
Qed.

Lemma shuffle_loop_spec (i : nat) (w : World) :
  i < length (arrays (host w) array) ∨ i = 0 →
  eval (for_down i shuffle_body) w = Normal tt
  ∧ rearranged w (exec (for_down i shuffle_body) w).
Proof.
  revert w. induction i as [|i IH]; intros w Hi.
  - split; [done | apply rearranged_refl].
  - assert (Hlt : S i < length (arrays (host w) array)) by (destruct Hi; [done | lia]).
    destruct (shuffle_body_spec (S i) w Hlt) as [He Hr].
    cbn [for_down]. rewrite eval_bind, exec_bind, He.
    destruct (IH (exec (shuffle_body (S i)) w)) as [He' Hr'].
    { left. destruct Hr as (P & _). rewrite (Permutation_length P). lia. }
    split; [done | by eapply rearranged_trans].
Qed.

Lemma shuffleArray_spec (w : World) :
  eval (shuffleArray array) w = Normal array
  ∧ rearranged w (exec (shuffleArray array) w).
Proof.
  destruct (shuffle_loop_spec (length (arrays (host w) array) - 1) w)
    as [He Hr]; [lia|].
  unfold shuffleArray. rewrite eval_bind, exec_bind.
  cbn [eval exec array_length gets fst snd].
  change (for_down ?n _) with (for_down n shuffle_body).
  by rewrite eval_bind, exec_bind, He.
Qed.

End Shuffle.

(** C10.  [shuffleArray(array)] returns [array] itself, the very array it
    was given; in the store that array now holds a permutation of what it
    held, so the same elements with the same multiplicities and the same
    length.  No other array, nothing of [state] and nothing of the page has
    changed. *)
Theorem shuffleArray_permutes_in_place (array : loc) (w : World) :
  eval (shuffleArray array) w = Normal array
  ∧ arrays (host (exec (shuffleArray array) w)) array ≡ₚ arrays (host w) array
  ∧ length (arrays (host (exec (shuffleArray array) w)) array)
    = length (arrays (host w) array)
  ∧ (∀ l, l ≠ array →
       arrays (host (exec (shuffleArray array) w)) l = arrays (host w) l)
  ∧ state (exec (shuffleArray array) w) = state w
  ∧ dom (exec (shuffleArray array) w) = dom w.
Proof.
  destruct (shuffleArray_spec array w) as [He (P & O & N & St & D)].
  repeat split; try done.
  by rewrite P.
Qed.

(** With every draw [0] the last element is swapped to the front three
    times over. *)
Example shuffleArray_four_elements :
  let w := exec (array_push 0 [VStr "a"; VStr "b"; VStr "c"; VStr "d"])
             (initial_world config (fun _ => 0)) in
  eval (shuffleArray 0) w = Normal 0
  ∧ arrays (host (exec (shuffleArray 0) w)) 0 = [VStr "b"; VStr "c"; VStr "d"; VStr "a"].
Proof. split; vm_compute; reflexivity. Qed.

(** ** [generateTiles] *)

Section GenerateTiles.

Variable cfg : Config.
Variable tilePool : loc.

#[local] Abbreviation push_pair := (push_pair cfg tilePool).
#[local] Abbreviation pairs_from := (pairs_from cfg).

Lemma push_loop_spec (n start : nat) (w : World) :
  eval (for_up n start push_pair tt) w = Normal tt
  ∧ arrays (host (exec (for_up n start push_pair tt) w)) tilePool
    = arrays (host w) tilePool ++ pairs_from start n
  ∧ state (exec (for_up n start push_pair tt) w) = state w
  ∧ dom (exec (for_up n start push_pair tt) w) = dom w.
Proof.
  revert start w. induction n as [|n IH]; intros start w.
  - cbn. by rewrite app_nil_r.
  - cbn [for_up]. rewrite eval_bind, exec_bind.
    change (eval (push_pair start tt) w) with (@Normal unit tt).
    destruct (IH (S start) (exec (push_pair start tt) w)) as (He & Ha & Hs & Hd).
    rewrite He, Ha, Hs, Hd. repeat split.
    unfold push_pair, array_push, pairs_from. js_unfold. cbn.
    rewrite fn_lookup_insert. by rewrite <- app_assoc.
Qed.

Lemma pairs_from_length (start n : nat) : length (pairs_from start n) = 2 * n.
Proof.
  unfold pairs_from. revert start. induction n as [|n IH]; intros start; [done|].
  cbn. rewrite IH. lia.
Qed.

Lemma pairs_from_even (start n : nat) (v : Value) :
  Nat.Even (count_occ Value_eq_dec (pairs_from start n) v).
Proof.
  unfold pairs_from. revert start. induction n as [|n IH]; intros start.
  - by exists 0.
  - destruct (IH (S start)) as [k Hk]. cbn [seq flat_map app].
    cbn [count_occ]. destruct (Value_eq_dec (tileType_at cfg start) v).
    + exists (S k). cbn in *. lia.
    + by exists k.
Qed.

End GenerateTiles.

(** C9.  [generateTiles()] returns an array.  When [rows * cols] is even it
    holds exactly [rows * cols] tile types and each value occurs in it an
    even number of times; when [rows * cols] is odd it is empty. *)
Theorem generateTiles_complete_pairs (cfg : Config) (w : World) :
  ∃ tiles : loc,
    eval (generateTiles cfg) w = Normal tiles
    ∧ let result := arrays (host (exec (generateTiles cfg) w)) tiles in
      if Nat.even (rows cfg * cols cfg)
      then length result = rows cfg * cols cfg
           ∧ ∀ v : Value, Nat.Even (count_occ Value_eq_dec result v)
      else result = [].
Proof.
  exists (nextArray (host w)).
  unfold generateTiles.
  destruct (Nat.even (rows cfg * cols cfg)) eqn:Heven.
  - apply Nat.even_spec in Heven as Heven'.
    destruct Heven' as [k Hk].
    assert (Hmod : (rows cfg * cols cfg) mod 2 = 0).
    { rewrite Hk, Nat.mul_comm. apply Nat.Div0.mod_mul. }
    rewrite decide_False by (by rewrite Hmod; intros []).
    assert (Hdiv : rows cfg * cols cfg / 2 = k).
    { rewrite Hk, Nat.mul_comm. by apply Nat.div_mul. }
    rewrite Hdiv.
    set (a := nextArray (host w)).
    rewrite eval_bind, exec_bind.
    change (eval array_new w) with (Normal a). cbv beta iota.
    set (w1 := exec array_new w).
    assert (Ha1 : arrays (host w1) a = []).
    { unfold w1, array_new. js_unfold. cbn. apply fn_lookup_insert. }
    change (for_up k 0 _ tt) with (for_up k 0 (push_pair cfg a) tt).
    rewrite eval_bind, exec_bind.
    destruct (push_loop_spec cfg a k 0 w1) as (He & Hp & _ & _).
    rewrite He. set (w2 := exec (for_up k 0 (push_pair cfg a) tt) w1) in *.
    destruct (shuffleArray_spec a w2) as (Hr & Hperm & _).
    split; [done|]. cbn zeta.
    rewrite (Permutation_length Hperm), Hp, Ha1. cbn [app]. split.
    + rewrite pairs_from_length. lia.
    + intros v. rewrite (Permutation_count_occ Value_eq_dec) in Hperm.
      rewrite Hperm, Hp, Ha1. apply pairs_from_even.
  - assert (Hmod : (rows cfg * cols cfg) mod 2 ≠ 0).
    { intros Hm. apply Nat.Div0.mod_divides in Hm as [k Hk].
      assert (Nat.even (rows cfg * cols cfg) = true); [|congruence].
      apply Nat.even_spec. by exists k. }
    rewrite decide_True by done.
    split; [done|]. cbn zeta.
    unfold array_new, console_error. js_unfold. cbn. apply fn_lookup_insert.
Qed.

Example generateTiles_two_by_two :
  let w := initial_world small_config (fun k => k) in
  eval (generateTiles small_config) w = Normal 0
  ∧ arrays (host (exec (generateTiles small_config) w)) 0
    = [VStr "b"; VStr "b"; VStr "a"; VStr "a"].
Proof. split; vm_compute; reflexivity. Qed.

Example generateTiles_three_by_three :
  let c := mkConfig 3 3 ["a"; "b"] 60 in
  let w := initial_world c (fun k => k) in
  arrays (host (exec (generateTiles c) w)) 0 = []
  ∧ console (host (exec (generateTiles c) w)) = [ConsoleError "棋盘格子总数必须是偶数!"].
Proof. split; vm_compute; reflexivity. Qed.

(** ** The board under eliminations *)

#[global] Instance cell_evolves_refl : Reflexive cell_evolves.
Proof. intros x. by left. Qed.

#[global] Instance cell_evolves_trans : Transitive cell_evolves.
Proof.
  intros x y z [->|[Hx ->]] [->|[Hy ->]]; unfold cell_evolves; auto.
Qed.

Lemma set_cell_visible_evolves (x : Cell) :
  cell_evolves x (set_cell_visible false x).
Proof.
  destruct x as [e t r c [|]]; [by right | by left].
Qed.

#[global] Instance board_evolves_refl : Reflexive board_evolves.
Proof. intros b. unfold board_evolves. reflexivity. Qed.

#[global] Instance board_evolves_trans : Transitive board_evolves.
Proof. intros b1 b2 b3. unfold board_evolves. apply transitivity. Qed.

Lemma hidden_at_evolves (r c : nat) (b : list (list Cell)) :
  board_evolves b (hidden_at r c b).
Proof.
  unfold hidden_at.
  destruct (b !! r) as [cells|] eqn:Hr; [|reflexivity].
  destruct (cells !! c) as [x|] eqn:Hc; [|reflexivity].
  unfold board_evolves.
  rewrite <- (list_insert_id b r cells) at 1 by done.
  apply Forall2_insert; [reflexivity|].
  rewrite <- (list_insert_id cells c x) at 1 by done.
  apply Forall2_insert; [reflexivity|].
  apply set_cell_visible_evolves.
Qed.

Lemma board_cell_hidden_at_eq (r c : nat) (b : list (list Cell)) (x : Cell) :
  board_cell b r c = Some x →
  board_cell (hidden_at r c b) r c = Some (set_cell_visible false x).
Proof.
  unfold board_cell, hidden_at. intros H.
  destruct (b !! r) as [cells|] eqn:Hr; [|done]. cbn in H. rewrite H.
  rewrite list_lookup_insert_eq by by eapply lookup_lt_Some.
  cbn. by rewrite list_lookup_insert_eq by by eapply lookup_lt_Some.
Qed.

Lemma board_cell_hidden_at_ne (r c r' c' : nat) (b : list (list Cell)) :
  (r, c) ≠ (r', c') →
  board_cell (hidden_at r c b) r' c' = board_cell b r' c'.
Proof.
  unfold board_cell, hidden_at. intros H.
  destruct (b !! r) as [cells|] eqn:Hr; [|done].
  destruct (cells !! c) as [x|] eqn:Hc; [|done].
  destruct (decide (r = r')) as [<-|Hne].
  - rewrite list_lookup_insert_eq by by eapply lookup_lt_Some.
    rewrite Hr. cbn. rewrite list_lookup_insert_ne; [done|congruence].
  - by rewrite list_lookup_insert_ne.
Qed.

Lemma board_hide_board (r c : nat) (w : World) :
  board (state (exec (board_hide r c) w)) = hidden_at r c (board (state w)).
Proof.
  unfold board_hide, hidden_at. js_unfold. cbn.
  destruct (board (state w) !! r) as [cells|]; [|done].
  by destruct (cells !! c).
Qed.

Lemma board_hide_run (r c : nat) (w : World) :
  is_Some (board_cell (board (state w)) r c) →
  board_hide r c w
  = (Normal tt,
     mkWorld (set_board (hidden_at r c (board (state w))) (state w)) (dom w) (host w)).
Proof.
  unfold board_hide, board_cell, hidden_at. js_unfold. cbn. intros [x H].
  destruct (board (state w) !! r) as [cells|]; [|done].
  cbn in H. by rewrite H.
Qed.

Lemma hidden_twice (b : list (list Cell)) (r1 c1 r2 c2 : nat) (x1 x2 : Cell) :
  board_cell b r1 c1 = Some x1 →
  board_cell b r2 c2 = Some x2 →
  is_Some (board_cell (hidden_at r1 c1 b) r2 c2)
  ∧ board_cell (hidden_at r2 c2 (hidden_at r1 c1 b)) r1 c1
    = Some (set_cell_visible false x1)
  ∧ board_cell (hidden_at r2 c2 (hidden_at r1 c1 b)) r2 c2
    = Some (set_cell_visible false x2).
Proof.
  intros H1 H2.
  destruct (decide ((r1, c1) = (r2, c2))) as [[= <- <-]|Hne].
  - assert (x2 = x1) as -> by congruence.
    pose proof (board_cell_hidden_at_eq _ _ _ _ H1) as H.
    pose proof (board_cell_hidden_at_eq _ _ _ _ H) as H'.
    by rewrite H, H'.
  - assert (H : board_cell (hidden_at r1 c1 b) r2 c2 = Some x2)
      by by rewrite board_cell_hidden_at_ne.
    repeat split.
    + by rewrite H.
    + rewrite board_cell_hidden_at_ne by congruence.
      by apply board_cell_hidden_at_eq.
    + by apply board_cell_hidden_at_eq.
Qed.

(** ** Computations that only eliminate *)

Lemma eliminates_only_bind {A B : Type} (m : JS A) (k : A → JS B) :
  eliminates_only m → (∀ a, eliminates_only (k a)) → eliminates_only (m ≫= k).
Proof.
  intros Hm Hk w. rewrite exec_bind.
  destruct (eval m w) as [a|err]; [|apply Hm].
  etransitivity; [apply Hm | apply Hk].
Qed.

Lemma eliminates_only_ret {A : Type} (a : A) : eliminates_only (mret a).
Proof. intros w. reflexivity. Qed.

Lemma eliminates_only_throw {A : Type} (e : Error) : eliminates_only (@throw A e).
Proof. intros w. reflexivity. Qed.

Lemma eliminates_only_gets {A : Type} (f : World → A) : eliminates_only (gets f).
Proof. intros w. reflexivity. Qed.

Lemma eliminates_only_modify_dom (f : Dom → Dom) : eliminates_only (modify_dom f).
Proof. intros w. reflexivity. Qed.

Lemma eliminates_only_modify_host (f : Host → Host) : eliminates_only (modify_host f).
Proof. intros w. reflexivity. Qed.

Lemma eliminates_only_modify_state (f : State → State) :
  (∀ s, board (f s) = board s) → eliminates_only (modify_state f).
Proof. intros Hf w. unfold exec, modify_state, modify. cbn. by rewrite Hf. Qed.

Lemma eliminates_only_board_hide (r c : nat) : eliminates_only (board_hide r c).
Proof. intros w. rewrite board_hide_board. apply hidden_at_evolves. Qed.

Ltac head_of t :=
  lazymatch t with
  | ?f _ => head_of f
  | _ => t
  end.

(** Takes a computation apart along its binds and branches, unfolding the
    script's functions as it meets them. *)
Ltac eliminates_only_step :=
  lazymatch goal with
  | |- eliminates_only (_ ≫= _) => apply eliminates_only_bind; [|intros ?]
  | |- eliminates_only (mret _) => apply eliminates_only_ret
  | |- eliminates_only (throw _) => apply eliminates_only_throw
  | |- eliminates_only (gets _) => apply eliminates_only_gets
  | |- eliminates_only (modify_dom _) => apply eliminates_only_modify_dom
  | |- eliminates_only (modify_host _) => apply eliminates_only_modify_host
  | |- eliminates_only (modify_state _) =>
      apply eliminates_only_modify_state; intros []; reflexivity
  | |- eliminates_only (board_hide _ _) => apply eliminates_only_board_hide
  | |- eliminates_only (if ?b then _ else _) => destruct b
  | |- eliminates_only (match ?x with _ => _ end) => destruct x
  | |- eliminates_only (let '(_, _) := ?x in _) => destruct x
  | |- eliminates_only ?m => let h := head_of m in progress unfold h
  end.

Ltac eliminates_only_auto := repeat eliminates_only_step.

Lemma eliminates_only_handleTileClick (e : elem) : eliminates_only (handleTileClick e).
Proof.
  eliminates_only_auto.
Qed.

Lemma eliminates_only_updateTimer : eliminates_only updateTimer.
Proof.
  eliminates_only_auto.
Qed.

Lemma eliminates_only_dispatch (cfg : Config) (ev : Event) :
  ev ≠ ClickReset → eliminates_only (dispatch cfg ev).
Proof.
  intros Hev. destruct ev as [e| |id|id]; [|done| |]; unfold dispatch.
  - eliminates_only_auto.
  - eliminates_only_auto.
  - eliminates_only_auto.
Qed.

Lemma run_evolves (cfg : Config) (evs : list Event) (w : World) :
  ClickReset ∉ evs →
  board_evolves (board (state w)) (board (state (run cfg evs w))).
Proof.
  revert w. induction evs as [|ev evs IH]; intros w Hevs; [reflexivity|].
  apply not_elem_of_cons in Hevs as [Hev Hevs]. cbn.
  etransitivity; [|by apply IH].
  apply eliminates_only_dispatch. congruence.
Qed.

(** ** [createBoard] builds a grid *)

Lemma createBoard_cells_spec (tiles : loc) (r n start : nat) (row : list Cell)
    (idx : nat) (w : World) :
  length row = start →
  row_shape r row →
  ∃ row' idx' w',
    for_up n start (createBoard_cell tiles r) (row, idx) w = (Normal (row', idx'), w')
    ∧ length row' = start + n
    ∧ row_shape r row'
    ∧ state w' = state w.
Proof.
  revert start row idx w. induction n as [|n IH]; intros start row idx w Hlen Hrow.
  - exists row, idx, w. split_and!; try done; lia.
  - set (tileType := default VUndefined (arrays (host w) tiles !! idx)).
    set (cell := mkCell (nextElement (dom w)) tileType r start true).
    set (w1 := exec (createBoard_cell tiles r start (row, idx)) w).
    destruct (IH (S start) (row ++ [cell]) (S idx) w1)
      as (row' & idx' & w' & He & Hl & Hr & Hs).
    { rewrite length_app. cbn. lia. }
    { intros c x Hx. apply lookup_app_Some in Hx as [Hx|[Hge Hx]]; [by apply Hrow|].
      apply list_lookup_singleton_Some in Hx as [Hc <-]. cbn. split; [done|lia]. }
    exists row', idx', w'. cbn [for_up].
    rewrite (bind_run _ _ w w1 (row ++ [cell], S idx)) by done.
    split_and!; try done; lia.
Qed.

Lemma createBoard_rows_spec (cfg : Config) (tiles : loc) (n start idx : nat) (w : World) :
  length (board (state w)) = start →
  rows_shape cfg (board (state w)) →
  ∃ idx' w',
    for_up n start (createBoard_row cfg tiles) idx w = (Normal idx', w')
    ∧ length (board (state w')) = start + n
    ∧ rows_shape cfg (board (state w')).
Proof.
  revert start idx w. induction n as [|n IH]; intros start idx w Hlen Hrows.
  - exists idx, w. split_and!; try done; lia.
  - destruct (createBoard_cells_spec tiles start (cols cfg) 0 [] idx w)
      as (row & idx1 & w0 & He & Hl & Hr & Hs); [done | intros c x; by rewrite lookup_nil |].
    set (w1 := exec (modify_state (fun s => set_board (board s ++ [row]) s)) w0).
    assert (Hrow : createBoard_row cfg tiles start idx w = (Normal idx1, w1)).
    { unfold createBoard_row. by rewrite (bind_run _ _ w w0 (row, idx1)). }
    assert (Hb1 : board (state w1) = board (state w) ++ [row]).
    { unfold w1, exec, modify_state, modify. cbn. by rewrite Hs. }
    destruct (IH (S start) idx1 w1) as (idx' & w' & He' & Hl' & Hr').
    { rewrite Hb1, length_app. cbn. lia. }
    { intros r cells. rewrite Hb1. intros Hx.
      apply lookup_app_Some in Hx as [Hx|[Hge Hx]]; [by apply Hrows|].
      apply list_lookup_singleton_Some in Hx as [Hc <-].
      assert (r = start) as -> by lia. split; [lia | done]. }
    exists idx', w'. cbn [for_up].
    rewrite (bind_run _ _ w w1 idx1) by done.
    split_and!; try done; lia.
Qed.

Lemma generateTiles_returns (cfg : Config) (w : World) :
  ∃ tiles w', generateTiles cfg w = (Normal tiles, w').
Proof.
  unfold generateTiles. case_decide.
  - eexists _, _. reflexivity.
  - set (a := nextArray (host w)). set (w1 := exec array_new w).
    rewrite (bind_run _ _ w w1 a) by done.
    change (for_up ?k 0 _ tt) with (for_up k 0 (push_pair cfg a) tt).
    destruct (push_loop_spec cfg a (rows cfg * cols cfg / 2) 0 w1) as (He & _).
    set (w2 := exec (for_up (rows cfg * cols cfg / 2) 0 (push_pair cfg a) tt) w1).
    rewrite (bind_run _ _ w1 w2 tt) by (by rewrite run_pair, He).
    destruct (shuffleArray_spec a w2) as (Hr & _).
    eexists _, _. rewrite run_pair, Hr. reflexivity.
Qed.

Lemma createBoard_spec (cfg : Config) (w : World) :
  ∃ w', createBoard cfg w = (Normal tt, w') ∧ board_shape cfg (board (state w')).
Proof.
  unfold createBoard.
  destruct (generateTiles_returns cfg w) as (tiles & w1 & Hg).
  rewrite (bind_run _ _ w w1 tiles) by done.
  set (w2 := exec (modify_dom (set_gridTemplateColumns (cols cfg)))
              (exec (modify_dom (set_boardChildren []))
                 (exec (modify_state (set_board [])) w1))).
  destruct (createBoard_rows_spec cfg tiles (rows cfg) 0 0 w2)
    as (idx & w3 & He & Hl & Hr); [done | |].
  { intros r cells. change (board (state w2)) with (@nil (list Cell)).
    by rewrite lookup_nil. }
  eexists. split.
  - rewrite (bind_run _ _ w1 _ tt) by reflexivity.
    rewrite (bind_run _ _ _ _ tt) by reflexivity.
    rewrite (bind_run _ _ _ w2 tt) by reflexivity.
    change (for_up (rows cfg) 0 _ 0) with (for_up (rows cfg) 0 (createBoard_row cfg tiles) 0).
    rewrite (bind_run _ _ w2 w3 idx) by done.
    reflexivity.
  - cbn. split; [done|]. apply Hr.
Qed.

Lemma stopGameTimer_run (w : World) :
  stopGameTimer w = (Normal tt, exec stopGameTimer w).
Proof.
  unfold stopGameTimer, clearInterval. js_unfold. cbn.
  by destruct (timerId (state w)).
Qed.

Lemma startGameTimer_board (cfg : Config) (w : World) :
  board (state (exec (startGameTimer cfg) w)) = board (state w).
Proof.
  unfold startGameTimer, clearInterval, setInterval. js_unfold. cbn.
  by destruct (timerId (state w)).
Qed.

Lemma resetGame_spec (cfg : Config) (w : World) :
  board_shape cfg (board (state (exec (resetGame cfg) w))).
Proof.
  unfold resetGame, exec at 1.
  rewrite (bind_run _ _ w _ tt) by apply stopGameTimer_run.
  do 4 (erewrite (bind_run _ _ _ _ tt) by reflexivity).
  match goal with
  | |- context [(createBoard cfg ≫= _) ?wx] =>
      destruct (createBoard_spec cfg wx) as (w' & Hc & Hshape)
  end.
  rewrite (bind_run _ _ _ w' tt) by done.
  fold (exec (startGameTimer cfg) w').
  by rewrite startGameTimer_board.
Qed.

Lemma board_shape_evolves (cfg : Config) (b b' : list (list Cell)) :
  board_evolves b b' → board_shape cfg b → board_shape cfg b'.
Proof.
  intros Hev [Hlen Hrows]. split.
  - by rewrite <- (Forall2_length _ _ _ Hev).
  - intros r cells' Hr'.
    destruct (Forall2_lookup_r _ _ _ _ _ Hev Hr') as (cells & Hr & Hcells).
    destruct (Hrows r cells Hr) as [Hl Hc]. split.
    + by rewrite <- (Forall2_length _ _ _ Hcells).
    + intros c x' Hx'.
      destruct (Forall2_lookup_r _ _ _ _ _ Hcells Hx') as (x & Hx & [->|[_ ->]]).
      * by apply Hc.
      * destruct (Hc c x Hx). by destruct x.
Qed.

Lemma board_evolves_cell (b b' : list (list Cell)) (r c : nat) (x : Cell) :
  board_evolves b b' →
  board_cell b r c = Some x →
  ∃ x', board_cell b' r c = Some x' ∧ cell_evolves x x'.
Proof.
  unfold board_cell. intros Hev Hx.
  destruct (b !! r) as [cells|] eqn:Hr; [|done]. cbn in Hx.
  destruct (Forall2_lookup_l _ _ _ _ _ Hev Hr) as (cells' & Hr' & Hcells).
  destruct (Forall2_lookup_l _ _ _ _ _ Hcells Hx) as (x' & Hx' & Hxx).
  exists x'. rewrite Hr'. by cbn.
Qed.

(** ** The click handler *)

(** C1.  The second click of a pair: a tile is selected, and the click
    falls on another element, neither hidden nor selected, whose type is the
    selected tile's.  [isMatchPossible] answers [true], and the handler
    completes and leaves both tiles' cells with [visible == false], both
    elements with the class [hidden], no selection, ten points more and two
    tiles fewer.  Nothing is asked of where the two tiles are, nor of any
    other cell of the board. *)
Theorem handleTileClick_eliminates_same_type_pair (w : World) (e : elem)
    (tile1 : Tile) (x1 x2 : Cell) :
  let x := elements (dom w) e in
  let tile2 := mkTile e (dataset_row x) (dataset_col x) (dataset_type x) in
  "hidden" ∉ classList x →
  "selected" ∉ classList x →
  selectedTile (state w) = Some tile1 →
  tile_element tile1 ≠ e →
  tile_type tile1 = tile_type tile2 →
  board_cell (board (state w)) (tile_row tile1) (tile_col tile1) = Some x1 →
  board_cell (board (state w)) (tile_row tile2) (tile_col tile2) = Some x2 →
  eval (isMatchPossible tile1 tile2) w = Normal true
  ∧ eval (handleTileClick e) w = Normal tt
  ∧ let w' := exec (handleTileClick e) w in
    board_cell (board (state w')) (tile_row tile1) (tile_col tile1)
    = Some (set_cell_visible false x1)
    ∧ board_cell (board (state w')) (tile_row tile2) (tile_col tile2)
      = Some (set_cell_visible false x2)
    ∧ "hidden" ∈ classList (elements (dom w') (tile_element tile1))
    ∧ "hidden" ∈ classList (elements (dom w') e)
    ∧ selectedTile (state w') = None
    ∧ score (state w') = (score (state w) + 10)%Z
    ∧ tilesRemaining (state w') = (tilesRemaining (state w) - 2)%Z.
Proof.
  intros x tile2 Hh Hs Hsel He Ht H1 H2.
  split; [done|].
  destruct (hidden_twice _ _ _ _ _ _ _ H1 H2) as (Hsome & Hb1 & Hb2).
  destruct w as [[b sel sc tl ti tr] [els ne bc g pe st tt rl] h]; cbn in *. subst sel.
  unfold handleTileClick, handleTileClick_with, classList_contains, get_element,
    selectedTile_get, isMatchPossible, console_warn, classList_add,
    classList_remove, modify_element, updateScore, winGame, stopGameTimer,
    clearInterval, alert.
  js_unfold. cbn -[board_hide decide bool_decide].
  fold x. rewrite !bool_decide_false by done. cbn -[board_hide decide bool_decide].
  destruct (decide (tile_element tile1 = e)) as [|_]; [done|].
  cbn -[board_hide decide bool_decide].
  destruct (decide (tile_type tile1 = dataset_type (els e))) as [_|]; [|done].
  cbn -[board_hide decide bool_decide].
  rewrite board_hide_run by (cbn; eauto). cbn -[board_hide decide bool_decide].
  rewrite board_hide_run by (cbn; eauto). cbn -[board_hide decide bool_decide].
  destruct (tr - 2 =? 0)%Z; [destruct ti|]; cbn -[decide bool_decide];
    (repeat split; try done).
  all: unfold insert, fn_insert; repeat case_decide; cbn; try congruence; set_solver.
Qed.

(** Four clicks clear the two-by-two board: twenty points and the win
    dialog. *)
Example small_game_is_won :
  let w := run small_config [ClickTile 0; ClickTile 1; ClickTile 2; ClickTile 3]
             (page_load small_config (fun k => k)) in
  map (map cell_visible) (board (state w)) = [[false; false]; [false; false]]
  ∧ score (state w) = 20%Z
  ∧ tilesRemaining (state w) = 0%Z
  ∧ alerts (host w) = [AlertWin 20].
Proof. split_and!; vm_compute; reflexivity. Qed.

(** The second click of the loaded board's first two tiles. *)
Lemma handleTileClick_eliminates_same_type_pair_witness :
  board_cell (board (state (exec (handleTileClick 1) one_selected_world))) 0 0
  = Some (mkCell 0 (VStr "🍎") 0 0 false)
  ∧ board_cell (board (state (exec (handleTileClick 1) one_selected_world))) 0 1
    = Some (mkCell 1 (VStr "🍎") 0 1 false).
Proof.
  pose proof (handleTileClick_eliminates_same_type_pair one_selected_world 1
                (mkTile 0 0 0 "🍎")
                (mkCell 0 (VStr "🍎") 0 0 true) (mkCell 1 (VStr "🍎") 0 1 true)) as H.
  cbv zeta in H.
  destruct H as (_ & _ & H1 & H2 & _).
  - apply (bool_decide_eq_false_1 _). vm_compute. reflexivity.
  - apply (bool_decide_eq_false_1 _). vm_compute. reflexivity.
  - vm_compute. reflexivity.
  - vm_compute. discriminate.
  - vm_compute. reflexivity.
  - vm_compute. reflexivity.
  - vm_compute. reflexivity.
  - split; [exact H1 | exact H2].
Defined.

(** The shipped handler never reads a property of [null]: the only
    exceptions it can raise come from [state.board[r][c]]. *)
Lemma handleTileClick_null_free (w : World) (e : elem) (p : string) :
  eval (handleTileClick e) w ≠ Throw (TypeError_null p).
Proof.
  destruct w as [[b sel sc tl ti tr] [els ne bc g pe st tt rl] h].
  unfold handleTileClick, handleTileClick_with, classList_contains, get_element,
    selectedTile_get, isMatchPossible, console_warn, classList_add,
    classList_remove, modify_element, updateScore, winGame, stopGameTimer,
    clearInterval, alert, flashBorder, setTimeout, board_hide.
  js_unfold. cbn -[decide bool_decide].
  destruct (bool_decide ("hidden" ∈ classList (els e))); [done|].
  destruct (bool_decide ("selected" ∈ classList (els e))); [done|].
  cbn -[decide bool_decide].
  destruct sel as [tile1|]; [|done].
  cbn -[decide bool_decide].
  destruct (decide (tile_element tile1 = e)); [done|].
  cbn -[decide bool_decide].
  destruct (decide (tile_type tile1 = dataset_type (els e))); [|done].
  cbn -[decide bool_decide].
  destruct (b !! tile_row tile1) as [cells1|]; [|done].
  destruct (cells1 !! tile_col tile1) as [y1|]; [|done].
  cbn -[decide bool_decide].
  match goal with |- context [match ?l !! ?i with _ => _ end] =>
    destruct (l !! i) as [cells2|]; [|done] end.
  destruct (cells2 !! dataset_col (els e)) as [y2|]; [|done].
  cbn -[decide bool_decide].
  destruct (tr - 2 =? 0)%Z; [destruct ti|]; done.
Qed.

(** C8.  Let the handler ask any function [gate] in place of
    [isMatchPossible].  On the second click of a same-type pair, if [gate]
    answers [false], the handler sets [state.selectedTile] to [null] and
    then evaluates [state.selectedTile.element]: it throws the [TypeError]
    of reading [element] of [null].  The shipped handler never throws such
    an error, in any world and for any click, and [isMatchPossible] answers
    [true] for every input. *)
Theorem rejection_branch_reads_element_of_null (gate : Tile → Tile → JS bool)
    (w : World) (e : elem) (tile1 : Tile) :
  let x := elements (dom w) e in
  let tile2 := mkTile e (dataset_row x) (dataset_col x) (dataset_type x) in
  "hidden" ∉ classList x →
  "selected" ∉ classList x →
  selectedTile (state w) = Some tile1 →
  tile_element tile1 ≠ e →
  tile_type tile1 = tile_type tile2 →
  eval (gate tile1 tile2) w = Normal false →
  eval (handleTileClick_with gate e) w = Throw (TypeError_null "element")
  ∧ (∀ (w' : World) (e' : elem) (p : string),
       eval (handleTileClick e') w' ≠ Throw (TypeError_null p))
  ∧ (∀ (w' : World) (t1 t2 : Tile), eval (isMatchPossible t1 t2) w' = Normal true).
Proof.
  intros x tile2 Hh Hs Hsel He Ht Hgate.
  split; [|split; [apply handleTileClick_null_free | done]].
  destruct w as [[b sel sc tl ti tr] [els ne bc g pe st tt rl] h]; cbn in *. subst sel.
  unfold handleTileClick_with, classList_contains, get_element,
    selectedTile_get, classList_add,
    classList_remove, modify_element, flashBorder, setTimeout.
  js_unfold. cbn -[decide bool_decide].
  fold x. rewrite !bool_decide_false by done. cbn -[decide bool_decide].
  destruct (decide (tile_element tile1 = e)) as [|_]; [done|].
  cbn -[decide bool_decide].
  destruct (decide (tile_type tile1 = dataset_type (els e))) as [_|]; [|done].
  cbn -[decide bool_decide].
  cbn in Hgate. fold tile2.
  destruct (gate tile1 tile2 _) as [[r|err] w1]; cbn in Hgate; [|done].
  injection Hgate as ->.
  destruct (selectedTile (state w1)) as [t|] eqn:Hw1; cbn; rewrite ?Hw1; done.
Qed.

(** The handler asking [isPathValid], as the source's TODO proposes, at the
    second click of the loaded board's first two tiles. *)
Lemma rejection_branch_reads_element_of_null_witness :
  eval (handleTileClick_with isPathValid 1) one_selected_world
  = Throw (TypeError_null "element").
Proof.
  pose proof (rejection_branch_reads_element_of_null isPathValid
                one_selected_world 1 (mkTile 0 0 0 "🍎")) as H.
  cbv zeta in H.
  destruct H as (H & _).
  - apply (bool_decide_eq_false_1 _). vm_compute. reflexivity.
  - apply (bool_decide_eq_false_1 _). vm_compute. reflexivity.
  - vm_compute. reflexivity.
  - vm_compute. discriminate.
  - vm_compute. reflexivity.
  - vm_compute. reflexivity.
  - exact H.
Defined.

(** ** The board through a session *)

Lemma dispatch_shape (cfg : Config) (ev : Event) (w : World) :
  board_shape cfg (board (state w)) →
  board_shape cfg (board (state (exec (dispatch cfg ev) w))).
Proof.
  intros Hw. destruct (decide (ev = ClickReset)) as [->|Hev].
  - unfold dispatch. rewrite exec_bind. cbn [eval exec gets fst snd].
    destruct (resetListener (dom w)); [apply resetGame_spec | done].
  - eapply board_shape_evolves; [|done]. by apply eliminates_only_dispatch.
Qed.

Lemma run_shape (cfg : Config) (evs : list Event) (w : World) :
  board_shape cfg (board (state w)) →
  board_shape cfg (board (state (run cfg evs w))).
Proof.
  revert w. induction evs as [|ev evs IH]; intros w Hw; [done|].
  cbn. apply IH. by apply dispatch_shape.
Qed.

Lemma page_load_shape (cfg : Config) (draws : nat → nat) :
  board_shape cfg (board (state (page_load cfg draws))).
Proof.
  unfold page_load, initializeGame. rewrite exec_bind. apply resetGame_spec.
Qed.

(** C5.  Events other than a reset change the board by eliminations only:
    the grid keeps its rows and their lengths, and every cell stays at its
    place with its element, type and position, either untouched or turned
    from visible to invisible; a cell that is invisible stays so.  A reset
    builds a grid of [rows] by [cols] cells, and the grid has that shape at
    every moment of the session the reset starts, and at every moment after
    the page has loaded, whatever happens. *)
Theorem board_changes_only_by_elimination (cfg : Config) (w : World)
    (evs : list Event) :
  ClickReset ∉ evs →
  board_evolves (board (state w)) (board (state (run cfg evs w)))
  ∧ length (board (state (run cfg evs w))) = length (board (state w))
  ∧ (∀ r c x,
       board_cell (board (state w)) r c = Some x →
       ∃ x', board_cell (board (state (run cfg evs w))) r c = Some x'
             ∧ cell_element x' = cell_element x
             ∧ cell_type x' = cell_type x
             ∧ cell_row x' = cell_row x
             ∧ cell_col x' = cell_col x
             ∧ (cell_visible x = false → cell_visible x' = false)
             ∧ (x' = x ∨ (cell_visible x = true ∧ cell_visible x' = false)))
  ∧ board_shape cfg (board (state (exec (resetGame cfg) w)))
  ∧ board_shape cfg (board (state (run cfg evs (exec (resetGame cfg) w))))
  ∧ (∀ (draws : nat → nat) (evs' : list Event),
       board_shape cfg (board (state (run cfg evs' (page_load cfg draws))))).
Proof.
  intros Hevs.
  pose proof (run_evolves cfg evs w Hevs) as Hev.
  split_and!.
  - done.
  - symmetry. by eapply Forall2_length.
  - intros r c x Hx.
    destruct (board_evolves_cell _ _ r c x Hev Hx) as (x' & Hx' & Hxx).
    exists x'. split; [done|].
    destruct Hxx as [->|[Hv ->]]; [by auto 10|].
    destruct x; cbn in *. split_and!; auto.
  - apply resetGame_spec.
  - apply run_shape, resetGame_spec.
  - intros draws evs'. apply run_shape, page_load_shape.
Qed.

(** Two clicks and a tick of the timer on the loaded board. *)
Lemma board_changes_only_by_elimination_witness :
  board_evolves (board (state loaded_world))
    (board (state (run config [ClickTile 0; ClickTile 1; IntervalFires 1] loaded_world)))
  ∧ board_cell
      (board (state (run config [ClickTile 0; ClickTile 1; IntervalFires 1] loaded_world)))
      0 1
    = Some (mkCell 1 (VStr "🍎") 0 1 false).
Proof.
  destruct (board_changes_only_by_elimination config loaded_world
              [ClickTile 0; ClickTile 1; IntervalFires 1]) as (H & _).
  - apply (bool_decide_eq_false_1 _). vm_compute. reflexivity.
  - split; [exact H | vm_compute; reflexivity].
Defined.

(** ** The stubs against the contract of the path search *)

(** C7.  Two distinct visible cells of the same type, with every route of
    at most two turns between them blocked: [isPathValid] answers [false],
    no path. *)
Theorem isPathValid_blocked_pair_has_no_path (w : World) (tile1 tile2 : Tile) :
  PathSpec.precondition (board (state w))
    (PathSpec.coordinate tile1) (PathSpec.coordinate tile2) = true →
  PathSpec.connectable (board (state w))
    (PathSpec.coordinate tile1) (PathSpec.coordinate tile2) = false →
  eval (isPathValid tile1 tile2) w = Normal false.
Proof. intros _ _. reflexivity. Qed.

(** On the full board no route of at most two turns joins the apples at
    [(0, 0)] and [(2, 4)]. *)
Lemma isPathValid_blocked_pair_has_no_path_witness :
  eval (isPathValid (tile_of 0 0 "🍎") (tile_of 2 4 "🍎")) loaded_world = Normal false.
Proof.
  apply (isPathValid_blocked_pair_has_no_path loaded_world
           (tile_of 0 0 "🍎") (tile_of 2 4 "🍎")).
  - vm_compute. reflexivity.
  - vm_compute. reflexivity.
Defined.

(** The gate the handler does call accepts that same blocked pair. *)
Example isMatchPossible_accepts_blocked_pair :
  PathSpec.connectable (board (state loaded_world))
    (PathSpec.coordinate (tile_of 0 0 "🍎")) (PathSpec.coordinate (tile_of 2 4 "🍎")) = false
  ∧ eval (isMatchPossible (tile_of 0 0 "🍎") (tile_of 2 4 "🍎")) loaded_world = Normal true.
Proof. split; vm_compute; reflexivity. Qed.

(** C4.  On the freshly loaded board the tiles at [(0, 0)] and [(0, 1)] are
    visible, of the same type and next to each other, so the straight line
    between them is clear; [isPathValid] answers [false] all the same, where
    its own description promises whether a valid path exists. *)
Theorem isPathValid_rejects_adjacent_pair :
  PathSpec.precondition (board (state loaded_world))
    (PathSpec.coordinate (tile_of 0 0 "🍎")) (PathSpec.coordinate (tile_of 0 1 "🍎")) = true
  ∧ PathSpec.zero_turn (board (state loaded_world))
      (PathSpec.coordinate (tile_of 0 0 "🍎")) (PathSpec.coordinate (tile_of 0 1 "🍎")) = true
  ∧ eval (isPathValid (tile_of 0 0 "🍎") (tile_of 0 1 "🍎")) loaded_world = Normal false.
Proof. split_and!; vm_compute; reflexivity. Qed.

(** C3, as stated, fails: four calls with malformed input, one of each
    kind (identical endpoints, an endpoint off the board, two types, an
    endpoint that is no longer visible), and each returns [false] in the
    normal way; none throws. *)
Lemma isPathValid_malformed_input_returns_false :
  (PathSpec.malformed (board (state loaded_world))
     (PathSpec.coordinate (tile_of 0 0 "🍎")) (PathSpec.coordinate (tile_of 0 0 "🍎")) = true
   ∧ eval (isPathValid (tile_of 0 0 "🍎") (tile_of 0 0 "🍎")) loaded_world = Normal false)
  ∧ (PathSpec.malformed (board (state loaded_world))
       (PathSpec.coordinate (tile_of 0 0 "🍎")) (PathSpec.coordinate (tile_of 8 0 "🍎")) = true
     ∧ eval (isPathValid (tile_of 0 0 "🍎") (tile_of 8 0 "🍎")) loaded_world = Normal false)
  ∧ (PathSpec.malformed (board (state loaded_world))
       (PathSpec.coordinate (tile_of 0 0 "🍎")) (PathSpec.coordinate (tile_of 0 2 "🍌")) = true
     ∧ eval (isPathValid (tile_of 0 0 "🍎") (tile_of 0 2 "🍌")) loaded_world = Normal false)
  ∧ (PathSpec.malformed (board (state one_pair_gone_world))
       (PathSpec.coordinate (tile_of 0 0 "🍎")) (PathSpec.coordinate (tile_of 2 4 "🍎")) = true
     ∧ eval (isPathValid (tile_of 0 0 "🍎") (tile_of 2 4 "🍎")) one_pair_gone_world
       = Normal false)
  ∧ ¬ (∀ (w : World) (tile1 tile2 : Tile),
         PathSpec.malformed (board (state w))
           (PathSpec.coordinate tile1) (PathSpec.coordinate tile2) = true →
         ∃ err, eval (isPathValid tile1 tile2) w = Throw err).
Proof.
  split_and!; try (vm_compute; reflexivity).
  intros H.
  destruct (H loaded_world (tile_of 0 0 "🍎") (tile_of 0 0 "🍎")) as [err Herr].
  - vm_compute. reflexivity.
  - discriminate Herr.
Qed.

(** C3, amended.  For malformed input, as for any input, the two stubs
    complete normally: [isPathValid] returns [false], the answer it gives
    when there is no path, and [isMatchPossible] returns [true]; neither
    signals a failure. *)
Theorem stubs_return_normally_on_malformed_input (w : World) (tile1 tile2 : Tile) :
  PathSpec.malformed (board (state w))
    (PathSpec.coordinate tile1) (PathSpec.coordinate tile2) = true →
  eval (isPathValid tile1 tile2) w = Normal false
  ∧ eval (isMatchPossible tile1 tile2) w = Normal true
  ∧ (∀ err, eval (isPathValid tile1 tile2) w ≠ Throw err)
  ∧ (∀ err, eval (isMatchPossible tile1 tile2) w ≠ Throw err).
Proof. intros _. split_and!; done. Qed.

(** An apple and a banana. *)
Lemma stubs_return_normally_on_malformed_input_witness :
  eval (isPathValid (tile_of 0 0 "🍎") (tile_of 0 2 "🍌")) loaded_world = Normal false.
Proof.
  destruct (stubs_return_normally_on_malformed_input loaded_world
              (tile_of 0 0 "🍎") (tile_of 0 2 "🍌")) as (H & _).
  - vm_compute. reflexivity.
  - exact H.
Defined.
